(** * Memory-Allocator: a shallow embedding of the block engine

    The allocator of [src/src/memoryBlock.h], [src/src/utils.cpp] and
    [src/src/malloc.cpp] keeps its block headers inside the very memory it
    hands out, and computes header addresses from the recorded sizes.  The
    embedding therefore works on a flat byte-addressed memory: every header
    field is read and written through its address, so two headers that the
    program places on overlapping bytes do alias here as they do there.

    Platform of the model: LP64, little-endian (x86-64 Linux, where [sbrk]
    lives).  [size_t], [intptr_t] and pointers are 64 bits wide;
    [sizeof(MemoryBlock)] is 24: [size] at offset 0, [isFree] at offset 8
    (one byte, followed by seven bytes of padding), [next] at offset 16.

    Addresses are integers.  [block + 1] and [ptr - 1] are taken exactly: a
    header lies inside the address space, so neither leaves it.  The address
    that [splitBlock] computes from a size is reduced modulo [2 ^ 64], as
    the machine reduces it, and a pointer stored into memory keeps its low
    64 bits, as every 64-bit store does.  [size_t] arithmetic
    wraps.  Loads and stores never fault: the model has no page protection.  Loops
    of the source that follow [next] pointers take a [fuel] argument and
    return [None] when it runs out, since on a corrupted chain the source
    itself may loop for ever. *)

From Stdlib Require Import ZArith List Bool Lia.
Import ListNotations.
Open Scope Z_scope.

(** ** Machine integers *)

Definition WORD : Z := 2 ^ 64.

(** Wrap-around of [size_t] arithmetic and of 64-bit stores. *)
Definition wrap (n : Z) : Z := n mod WORD.

(** Conversion of a [size_t] to [intptr_t] (two's complement). *)
Definition to_intptr (n : Z) : Z :=
  let w := wrap n in if w <? 2 ^ 63 then w else w - WORD.

(** Conversion of a (possibly negative) integer argument to [size_t], as the
    language performs it at a call such as [malloc(-1)]. *)
Definition to_size_t (n : Z) : Z := wrap n.

Definition nullptr : Z := 0.

(** [(void* ) -1], the failure value of [sbrk]. *)
Definition SBRK_FAILED : Z := WORD - 1.

Definition sizeof_word_t : Z := 8.
(** [sizeof(block)] where [block] is a [MemoryBlock*]. *)
Definition sizeof_block_ptr : Z := 8.
(** [sizeof(std::declval<MemoryBlock>().size)]. *)
Definition sizeof_size_field : Z := 8.
Definition sizeof_MemoryBlock : Z := 24.

Definition off_size : Z := 0.
Definition off_isFree : Z := 8.
Definition off_next : Z := 16.

(** ** Byte-addressed memory *)

Definition memory : Type := Z -> Z.

Definition load8 (m : memory) (a : Z) : Z := m a mod 256.

Definition store8 (m : memory) (a v : Z) : memory :=
  fun x => if x =? a then v mod 256 else m x.

(** Byte [k] of the little-endian image of [v]. *)
Definition byte_of (v k : Z) : Z := (v / 2 ^ (8 * k)) mod 256.

Definition load64 (m : memory) (a : Z) : Z :=
  load8 m a
  + 2 ^ 8 * load8 m (a + 1)
  + 2 ^ 16 * load8 m (a + 2)
  + 2 ^ 24 * load8 m (a + 3)
  + 2 ^ 32 * load8 m (a + 4)
  + 2 ^ 40 * load8 m (a + 5)
  + 2 ^ 48 * load8 m (a + 6)
  + 2 ^ 56 * load8 m (a + 7).

Definition store64 (m : memory) (a v : Z) : memory :=
  fun x => if (a <=? x) && (x <? a + 8) then byte_of v (x - a) else m x.

(** [memset(dst, c, n)] and [memcpy(dst, src, n)] of the C library, by their
    effect on memory; [memcpy] reads its source from the memory it started
    with. *)
Definition memset (m : memory) (dst c n : Z) : memory :=
  fun x => if (dst <=? x) && (x <? dst + n) then c mod 256 else m x.

Definition memcpy (m : memory) (dst src n : Z) : memory :=
  fun x => if (dst <=? x) && (x <? dst + n) then m (src + (x - dst)) else m x.

(** ** Header fields: [block->size], [block->isFree], [block->next] *)

Definition blk_size (m : memory) (block : Z) : Z := load64 m (block + off_size).

(** A [bool] is read as true when its byte is not zero. *)
Definition blk_isFree (m : memory) (block : Z) : bool :=
  negb (load8 m (block + off_isFree) =? 0).

Definition blk_next (m : memory) (block : Z) : Z := load64 m (block + off_next).

Definition set_size (m : memory) (block v : Z) : memory :=
  store64 m (block + off_size) v.

Definition set_isFree (m : memory) (block : Z) (b : bool) : memory :=
  store8 m (block + off_isFree) (if b then 1 else 0).

Definition set_next (m : memory) (block p : Z) : memory :=
  store64 m (block + off_next) p.

(** ** Process state

    [heap_start] is the global of [memoryBlock.h].  The operating system is
    a program break [brk] that [sbrk] may move inside [brk_lo .. brk_hi]. *)

Record Proc : Type := mkProc {
  mem : memory;
  heap_start : Z;
  brk : Z;
  brk_lo : Z;
  brk_hi : Z
}.

Definition with_mem (st : Proc) (m : memory) : Proc :=
  mkProc m (heap_start st) (brk st) (brk_lo st) (brk_hi st).

Definition with_heap_start (st : Proc) (h : Z) : Proc :=
  mkProc (mem st) h (brk st) (brk_lo st) (brk_hi st).

Definition with_brk (st : Proc) (b : Z) : Proc :=
  mkProc (mem st) (heap_start st) b (brk_lo st) (brk_hi st).

(** [sbrk(increment)] of glibc on Linux.  [sbrk(0)] only reads the break.
    Otherwise glibc refuses, with [(void* ) -1], an increment that takes the
    break out of the address space (a break of [2 ^ 64] itself, which glibc
    refuses too, is left to the limit [brk_hi]: no kernel places it there),
    and asks the kernel for the new break.
    The kernel moves the break when the new one lies inside its limits and
    leaves it where it is when not; glibc then reports failure only when the
    break it got is below the one it asked for.  So a positive increment
    that the kernel refuses fails, while a negative one that it refuses
    returns the previous break like a success, with the break not moved. *)
Definition sbrk (st : Proc) (increment : Z) : Z * Proc :=
  if increment =? 0 then (brk st, st)
  else
    let nb := brk st + increment in
    if (nb <? 0) || (WORD <? nb) then (SBRK_FAILED, st)
    else if (brk_lo st <=? nb) && (nb <=? brk_hi st)
    then (brk st, with_brk st nb)
    else if brk st <? nb then (SBRK_FAILED, st)
    else (brk st, st).

(** ** memoryBlock.h *)

(** [(n + sizeof(word_t) - 1) & ~(sizeof(word_t) - 1)] *)
Definition align (n : Z) : Z :=
  Z.land (wrap (n + sizeof_word_t - 1)) (WORD - 1 - (sizeof_word_t - 1)).

(** [size + sizeof(MemoryBlock) - sizeof(std::declval<MemoryBlock>().size)] *)
Definition allocSize (size : Z) : Z :=
  wrap (size + sizeof_MemoryBlock - sizeof_size_field).

(** [firstFit]: the search as [memoryBlock.h] writes it, from [heap_start]. *)
Fixpoint firstFit_loop (fuel : nat) (m : memory) (block size : Z) : option Z :=
  match fuel with
  | O => None
  | S fuel' =>
      if negb (block =? nullptr) then
        if blk_isFree m block && (size <=? blk_size m block) then Some block
        else firstFit_loop fuel' m (blk_next m block) size
      else Some nullptr
  end.

Definition firstFit (fuel : nat) (st : Proc) (size : Z) : option Z :=
  firstFit_loop fuel (mem st) (heap_start st) size.

Definition findBlock (fuel : nat) (st : Proc) (size : Z) : option Z :=
  firstFit fuel st size.

(** ** utils.cpp *)

(** [block + 1] *)
Definition payload_of (block : Z) : Z := block + sizeof_MemoryBlock.

(** [(MemoryBlock* )ptr - 1] *)
Definition header_of (ptr : Z) : Z := ptr - sizeof_MemoryBlock.

Definition splitBlock (m : memory) (block size : Z) : memory :=
  if blk_size m block <=? wrap (size + sizeof_MemoryBlock) then m
  else
    let newBlock := wrap (payload_of block + size) in
    let m := set_size m newBlock
               (wrap (blk_size m block - size - sizeof_MemoryBlock)) in
    let m := set_isFree m newBlock true in
    let m := set_next m newBlock (blk_next m block) in
    let m := set_size m block size in
    set_next m block newBlock.

(** The body of the two merging loops: [block] absorbs [block->next]. *)
Definition absorb_next (m : memory) (block : Z) : memory :=
  let m := set_size m block
             (wrap (blk_size m block
                    + wrap (sizeof_MemoryBlock + blk_size m (blk_next m block)))) in
  set_next m block (blk_next m (blk_next m block)).

Fixpoint mergeBlocks_loop (fuel : nat) (m : memory) (block : Z) : option memory :=
  match fuel with
  | O => None
  | S fuel' =>
      if negb (blk_next m block =? nullptr) && blk_isFree m (blk_next m block)
      then mergeBlocks_loop fuel' (absorb_next m block) block
      else Some m
  end.

Definition mergeBlocks (fuel : nat) (m : memory) (block : Z) : option memory :=
  if (block =? nullptr) || negb (blk_isFree m block) then Some m
  else mergeBlocks_loop fuel m block.

(** The backward scan of [mergeFreeBlocks]. *)
Fixpoint mergePrev_loop (fuel : nat) (m : memory) (current block : Z)
  : option memory :=
  match fuel with
  | O => None
  | S fuel' =>
      if current =? nullptr then Some m
      else if (blk_next m current =? block) && blk_isFree m current then
        let m := set_size m current
                   (wrap (blk_size m current
                          + wrap (sizeof_MemoryBlock + blk_size m block))) in
        Some (set_next m current (blk_next m block))
      else mergePrev_loop fuel' m (blk_next m current) block
  end.

Definition mergeFreeBlocks (fuel : nat) (st : Proc) (block : Z) : option Proc :=
  let m := mem st in
  let m := if negb (blk_next m block =? nullptr) && blk_isFree m (blk_next m block)
           then absorb_next m block else m in
  match mergePrev_loop fuel m (heap_start st) block with
  | None => None
  | Some m => Some (with_mem st m)
  end.

Fixpoint findFreeBlock_loop (fuel : nat) (m : memory) (current size : Z)
  : option Z :=
  match fuel with
  | O => None
  | S fuel' =>
      if current =? nullptr then Some nullptr
      else if blk_isFree m current && (size <=? blk_size m current)
      then Some current
      else findFreeBlock_loop fuel' m (blk_next m current) size
  end.

Definition findFreeBlock (fuel : nat) (st : Proc) (size : Z) : option Z :=
  findFreeBlock_loop fuel (mem st) (heap_start st) size.

Definition requestSpace (st : Proc) (size : Z) : Z * Proc :=
  let '(block, st) := sbrk st 0 in
  let '(r, st) := sbrk st (to_intptr (allocSize size)) in
  if r =? SBRK_FAILED then (nullptr, st)
  else
    let st := if heap_start st =? nullptr then with_heap_start st block else st in
    let m := set_size (mem st) block size in
    let m := set_isFree m block false in
    let m := set_next m block nullptr in
    (block, with_mem st m).

(** ** malloc.cpp *)

(** [while(current->next) current = current->next;] *)
Fixpoint last_block (fuel : nat) (m : memory) (current : Z) : option Z :=
  match fuel with
  | O => None
  | S fuel' =>
      if blk_next m current =? nullptr then Some current
      else last_block fuel' m (blk_next m current)
  end.

(** The value [malloc] assigns to [size] before it searches or grows. *)
Definition malloc_span (size : Z) : Z := align (wrap (sizeof_block_ptr + size)).

Definition malloc (fuel : nat) (st : Proc) (size : Z) : option (Z * Proc) :=
  if size <=? 0 then Some (nullptr, st)
  else
    let size := malloc_span size in
    if heap_start st =? nullptr then
      let '(block, st) := requestSpace st size in
      if block =? nullptr then Some (nullptr, st)
      else Some (payload_of block, with_heap_start st block)
    else
      match findFreeBlock fuel st size with
      | None => None
      | Some block =>
          if block =? nullptr then
            let '(block, st) := requestSpace st size in
            if block =? nullptr then Some (nullptr, st)
            else
              match last_block fuel (mem st) (heap_start st) with
              | None => None
              | Some current =>
                  Some (payload_of block,
                        with_mem st (set_next (mem st) current block))
              end
          else
            let m := set_isFree (mem st) block false in
            let m := splitBlock m block size in
            Some (payload_of block, with_mem st m)
      end.

Definition free (fuel : nat) (st : Proc) (ptr : Z) : option Proc :=
  if ptr =? nullptr then Some st
  else
    let block := header_of ptr in
    let st := with_mem st (set_isFree (mem st) block true) in
    match mergeFreeBlocks fuel st block with
    | None => None
    | Some st =>
        match mergeBlocks fuel (mem st) block with
        | None => None
        | Some m => Some (with_mem st m)
        end
    end.

Definition realloc (fuel : nat) (st : Proc) (ptr size : Z) : option (Z * Proc) :=
  if ptr =? nullptr then malloc fuel st size
  else if size =? 0 then
    match free fuel st ptr with
    | None => None
    | Some st => Some (nullptr, st)
    end
  else
    let block := header_of ptr in
    if size <=? blk_size (mem st) block then Some (ptr, st)
    else
      match malloc fuel st size with
      | None => None
      | Some (newPtr, st1) =>
          if newPtr =? nullptr then Some (nullptr, st1)
          else
            let st2 := with_mem st1
                         (memcpy (mem st1) newPtr ptr (blk_size (mem st1) block)) in
            match free fuel st2 ptr with
            | None => None
            | Some st3 => Some (newPtr, st3)
            end
      end.

Definition calloc (fuel : nat) (st : Proc) (num size : Z) : option (Z * Proc) :=
  let total_size := wrap (num * size) in
  if negb (num =? 0) && negb (total_size / num =? size) then Some (nullptr, st)
  else
    match malloc fuel st total_size with
    | None => None
    | Some (ptr, st1) =>
        if ptr =? nullptr then Some (nullptr, st1)
        else Some (ptr, with_mem st1 (memset (mem st1) ptr 0 total_size))
    end.

(** ** main.cpp: the counters of [memoryInfo] *)

Record Stats : Type := mkStats {
  totalMemory : Z;
  freeMemory : Z;
  usedMemory : Z;
  blockCount : Z;
  freeBlockCount : Z
}.

Fixpoint memoryInfo_loop (fuel : nat) (m : memory) (current : Z) (s : Stats)
  : option Stats :=
  match fuel with
  | O => None
  | S fuel' =>
      if current =? nullptr then Some s
      else
        let sz := blk_size m current in
        let s :=
          if blk_isFree m current
          then mkStats (wrap (totalMemory s + sz)) (wrap (freeMemory s + sz))
                       (usedMemory s) (wrap (blockCount s + 1))
                       (wrap (freeBlockCount s + 1))
          else mkStats (wrap (totalMemory s + sz)) (freeMemory s)
                       (wrap (usedMemory s + sz)) (wrap (blockCount s + 1))
                       (freeBlockCount s) in
        memoryInfo_loop fuel' m (blk_next m current) s
  end.

Definition memoryInfo (fuel : nat) (st : Proc) : option Stats :=
  memoryInfo_loop fuel (mem st) (heap_start st) (mkStats 0 0 0 0 0).

(** ** Sequencing of calls that may run out of fuel *)

Definition bind {A B : Type} (c : option A) (k : A -> option B) : option B :=
  match c with
  | Some a => k a
  | None => None
  end.

Notation "x <- c ;; k" := (bind c (fun x => k))
  (at level 61, c at next level, right associativity).
Notation "' pat <- c ;; k" := (bind c (fun x => match x with pat => k end))
  (at level 61, pat pattern, c at next level, right associativity).

(** ** The chain of blocks

    [chain m h l]: following [next] from [h] visits exactly the headers [l]
    and then reaches [nullptr]. *)

Inductive chain (m : memory) : Z -> list Z -> Prop :=
| chain_nil : chain m nullptr []
| chain_cons : forall b l,
    b <> nullptr -> chain m (blk_next m b) l -> chain m b (b :: l).

(** The test of the first-fit search on one block. *)
Definition fits (m : memory) (size block : Z) : bool :=
  blk_isFree m block && (size <=? blk_size m block).

(** The first [n] headers met from [b], for inspection of concrete heaps. *)
Fixpoint blocks_from (n : nat) (m : memory) (b : Z) : list (Z * Z * bool) :=
  match n with
  | O => []
  | S n' =>
      if b =? nullptr then []
      else (b, blk_size m b, blk_isFree m b) :: blocks_from n' m (blk_next m b)
  end.

(** ** Concrete arenas *)

(** An untouched process: no block yet, zero-filled memory, the break at
    4096 with one page of room above it. *)
Definition arena0 : Proc := mkProc (fun _ => 0) nullptr 4096 4096 8192.

(** A process whose arena holds one Used block of recorded size 16 and whose
    break cannot move any further. *)
Definition arena_full : Proc :=
  mkProc (set_next (set_isFree (set_size (fun _ => 0) 4096 16) 4096 false)
                   4096 nullptr)
         4096 4128 4096 4128.

(** ** Blocks reachable from the head, and the coalescing invariant *)

Inductive reachable (m : memory) (h : Z) : Z -> Prop :=
| reach_head : h <> nullptr -> reachable m h h
| reach_next : forall b,
    reachable m h b -> blk_next m b <> nullptr -> reachable m h (blk_next m b).

(** No block of the chain that is Free has a successor that is Free. *)
Definition no_adjacent_free (st : Proc) : Prop :=
  forall b,
    reachable (mem st) (heap_start st) b ->
    blk_isFree (mem st) b = true ->
    blk_next (mem st) b <> nullptr ->
    blk_isFree (mem st) (blk_next (mem st) b) = false.

(** ** Two call sequences on an untouched process *)

(** The caller stores one byte through a pointer it holds. *)
Definition poke (st : Proc) (addr v : Z) : Proc :=
  with_mem st (store8 (mem st) addr v).

(** [p = malloc(8); p = realloc(p, 16); p[8] = 7; q = realloc(p, 17)].
    The result lists [p], the pointer of the first [realloc], the capacity
    recorded for the block of [p], the byte [p[8]] before the second
    [realloc], [q], and the byte [q[8]] after it. *)
Definition grow_after_fit : option (Z * Z * Z * Z * Z * Z) :=
  '(p, st) <- malloc 4 arena0 8 ;;
  '(p', st) <- realloc 4 st p 16 ;;
  let st := poke st (p' + 8) 7 in
  '(q, st') <- realloc 4 st p' 17 ;;
  Some (p, p', blk_size (mem st) (header_of p'), load8 (mem st) (p' + 8),
        q, load8 (mem st') (q + 8)).

(** Five allocations of [sizeof(int)] bytes, the first four released in
    address order.  The result is the pointer of the fifth allocation, which
    is never released, and the process. *)
Definition four_frees : option (Z * Proc) :=
  '(a, st) <- malloc 6 arena0 4 ;;
  '(b, st) <- malloc 6 st 4 ;;
  '(c, st) <- malloc 6 st 4 ;;
  '(d, st) <- malloc 6 st 4 ;;
  '(e, st) <- malloc 6 st 4 ;;
  st <- free 6 st a ;;
  st <- free 6 st b ;;
  st <- free 6 st c ;;
  st <- free 6 st d ;;
  Some (e, st).

Definition after_four_frees : Proc :=
  match four_frees with
  | Some (_, st) => st
  | None => arena0
  end.

(** The same, followed by one allocation of 89 bytes.  The result lists the
    pointer of the fifth allocation, the pointer of the last one, and the
    final process. *)
Definition reuse_after_four_frees : option (Z * Z * Proc) :=
  '(e, st) <- four_frees ;;
  '(f, st) <- malloc 6 st 89 ;;
  Some (e, f, st).

Definition after_reuse : Proc :=
  match reuse_after_four_frees with
  | Some (_, _, st) => st
  | None => arena0
  end.

(** ** Sums over a list of headers *)

(** The capacities recorded in the headers [l], added up. *)
Definition sum_sizes (m : memory) (l : list Z) : Z :=
  fold_right (fun b acc => blk_size m b + acc) 0 l.

(** The headers of [l] that are Free, and those that are Used. *)
Definition free_blocks (m : memory) (l : list Z) : list Z :=
  filter (blk_isFree m) l.

Definition used_blocks (m : memory) (l : list Z) : list Z :=
  filter (fun b => negb (blk_isFree m b)) l.

Definition stats_in_range (s : Stats) : Prop :=
  0 <= totalMemory s < WORD /\ 0 <= freeMemory s < WORD
  /\ 0 <= usedMemory s < WORD /\ 0 <= blockCount s < WORD
  /\ 0 <= freeBlockCount s < WORD.

(** ** Runs of blocks

    [segment m c l t]: following [next] from [c] visits the headers [l] and
    arrives at [t].  A [chain] is a segment that arrives at [nullptr]. *)

Inductive segment (m : memory) : Z -> list Z -> Z -> Prop :=
| segment_nil : forall t, segment m t [] t
| segment_cons : forall b l t,
    b <> nullptr -> segment m (blk_next m b) l t -> segment m b (b :: l) t.

(** What a block gains by absorbing the blocks [l]: for each of them its
    header and its recorded capacity. *)
Definition absorbed_bytes (m : memory) (l : list Z) : Z :=
  fold_right (fun b acc => sizeof_MemoryBlock + blk_size m b + acc) 0 l.

(** The headers at [block] and at [b] share no byte. *)
Definition apart (block b : Z) : Prop :=
  b + sizeof_MemoryBlock <= block \/ block + sizeof_MemoryBlock <= b.

(** Three Free blocks of recorded capacity 16 at 4096, 4136 and 4176, each
    the successor of the one before. *)
Definition three_free_blocks : memory :=
  let m := fun _ => 0 in
  let m := set_next (set_isFree (set_size m 4096 16) 4096 true) 4096 4136 in
  let m := set_next (set_isFree (set_size m 4136 16) 4136 true) 4136 4176 in
  set_next (set_isFree (set_size m 4176 16) 4176 true) 4176 nullptr.

(** No two headers of [l] share a byte. *)
Definition separated (l : list Z) : Prop := ForallOrdPairs apart l.

(** * Properties of the memory model *)

Section Memory.

Lemma wrap_range n : 0 <= wrap n < WORD.
Proof. unfold wrap, WORD. apply Z.mod_pos_bound. lia. Qed.

Lemma wrap_small n : 0 <= n < WORD -> wrap n = n.
Proof. unfold wrap. apply Z.mod_small. Qed.

Lemma load8_range m a : 0 <= load8 m a < 256.
Proof. unfold load8. apply Z.mod_pos_bound. lia. Qed.

Lemma load64_range m a : 0 <= load64 m a < WORD.
Proof.
  unfold load64, WORD.
  pose proof (load8_range m a). pose proof (load8_range m (a + 1)).
  pose proof (load8_range m (a + 2)). pose proof (load8_range m (a + 3)).
  pose proof (load8_range m (a + 4)). pose proof (load8_range m (a + 5)).
  pose proof (load8_range m (a + 6)). pose proof (load8_range m (a + 7)).
  change (2 ^ 8) with 256. change (2 ^ 16) with 65536.
  change (2 ^ 24) with 16777216. change (2 ^ 32) with 4294967296.
  change (2 ^ 40) with 1099511627776. change (2 ^ 48) with 281474976710656.
  change (2 ^ 56) with 72057594037927936.
  change (2 ^ 64) with 18446744073709551616.
  lia.
Qed.

(** Two memories that agree on the eight bytes of a word hold the same word. *)
Lemma load64_ext m m' a :
  (forall k, 0 <= k < 8 -> m' (a + k) = m (a + k)) -> load64 m' a = load64 m a.
Proof.
  intros H. unfold load64, load8.
  rewrite <- (Z.add_0_r a) at 1 9.
  rewrite !H by lia. rewrite Z.add_0_r. reflexivity.
Qed.

Lemma load8_store8_same m a v : load8 (store8 m a v) a = v mod 256.
Proof.
  unfold load8, store8. rewrite Z.eqb_refl. apply Z.mod_mod. lia.
Qed.

Lemma load8_store8_other m a b v : a <> b -> load8 (store8 m b v) a = load8 m a.
Proof.
  intros H. unfold load8, store8.
  destruct (Z.eqb_spec a b); [contradiction | reflexivity].
Qed.

Lemma store64_outside m b v x : x < b \/ b + 8 <= x -> store64 m b v x = m x.
Proof.
  intros H. unfold store64.
  destruct (Z.leb_spec b x); destruct (Z.ltb_spec x (b + 8)); simpl;
    try reflexivity; lia.
Qed.

Lemma store64_inside m b v k :
  0 <= k < 8 -> store64 m b v (b + k) = byte_of v k.
Proof.
  intros H. unfold store64.
  destruct (Z.leb_spec b (b + k)); destruct (Z.ltb_spec (b + k) (b + 8)); simpl;
    try lia.
  f_equal. lia.
Qed.

Lemma load8_store64_other m a b v :
  a < b \/ b + 8 <= a -> load8 (store64 m b v) a = load8 m a.
Proof. intros H. unfold load8. rewrite store64_outside by assumption. reflexivity. Qed.

Lemma load64_store64_other m a b v :
  a + 8 <= b \/ b + 8 <= a -> load64 (store64 m b v) a = load64 m a.
Proof.
  intros H. apply load64_ext. intros k Hk. apply store64_outside. lia.
Qed.

Lemma load64_store8_other m a b v :
  b < a \/ a + 8 <= b -> load64 (store8 m b v) a = load64 m a.
Proof.
  intros H. apply load64_ext. intros k Hk. unfold store8.
  destruct (Z.eqb_spec (a + k) b); [lia | reflexivity].
Qed.

Lemma byte_of_range v k : 0 <= byte_of v k < 256.
Proof. unfold byte_of. apply Z.mod_pos_bound. lia. Qed.

(** Little-endian bytes put together again give the word, modulo [2 ^ 64]. *)
Lemma byte_of_succ v k : 0 <= k -> byte_of v (k + 1) = byte_of (v / 256) k.
Proof.
  intros Hk. unfold byte_of.
  replace (8 * (k + 1)) with (8 + 8 * k) by lia.
  rewrite Z.pow_add_r by lia. change (2 ^ 8) with 256.
  rewrite Z.div_div by lia. reflexivity.
Qed.
Lemma byte_of_0 v : byte_of v 0 = v mod 256.
Proof. unfold byte_of. simpl. rewrite Z.div_1_r. reflexivity. Qed.

Lemma bytes_of_word v :
  byte_of v 0 + 2 ^ 8 * byte_of v 1 + 2 ^ 16 * byte_of v 2
  + 2 ^ 24 * byte_of v 3 + 2 ^ 32 * byte_of v 4 + 2 ^ 40 * byte_of v 5
  + 2 ^ 48 * byte_of v 6 + 2 ^ 56 * byte_of v 7 = v mod WORD.
Proof.
  unfold WORD.
  change (byte_of v 7) with (byte_of v (0 + 1 + 1 + 1 + 1 + 1 + 1 + 1)).
  change (byte_of v 6) with (byte_of v (0 + 1 + 1 + 1 + 1 + 1 + 1)).
  change (byte_of v 5) with (byte_of v (0 + 1 + 1 + 1 + 1 + 1)).
  change (byte_of v 4) with (byte_of v (0 + 1 + 1 + 1 + 1)).
  change (byte_of v 3) with (byte_of v (0 + 1 + 1 + 1)).
  change (byte_of v 2) with (byte_of v (0 + 1 + 1)).
  change (byte_of v 1) with (byte_of v (0 + 1)).
  rewrite !byte_of_succ by lia. rewrite !byte_of_0.
  pose proof (Z.rem_mul_r v 256 (2^56)) as H0.
  pose proof (Z.rem_mul_r (v/256) 256 (2^48)) as H1.
  pose proof (Z.rem_mul_r (v/256/256) 256 (2^40)) as H2.
  pose proof (Z.rem_mul_r (v/256/256/256) 256 (2^32)) as H3.
  pose proof (Z.rem_mul_r (v/256/256/256/256) 256 (2^24)) as H4.
  pose proof (Z.rem_mul_r (v/256/256/256/256/256) 256 (2^16)) as H5.
  pose proof (Z.rem_mul_r (v/256/256/256/256/256/256) 256 (2^8)) as H6.
  change (256 * 2 ^ 56) with (2 ^ 64) in H0.
  change (256 * 2 ^ 48) with (2 ^ 56) in H1.
  change (256 * 2 ^ 40) with (2 ^ 48) in H2.
  change (256 * 2 ^ 32) with (2 ^ 40) in H3.
  change (256 * 2 ^ 24) with (2 ^ 32) in H4.
  change (256 * 2 ^ 16) with (2 ^ 24) in H5.
  change (256 * 2 ^ 8) with (2 ^ 16) in H6.
  rewrite H0, H1, H2, H3, H4, H5, H6 by lia.
  change (2 ^ 8) with 256. change (2 ^ 16) with 65536.
  change (2 ^ 24) with 16777216. change (2 ^ 32) with 4294967296.
  change (2 ^ 40) with 1099511627776. change (2 ^ 48) with 281474976710656.
  change (2 ^ 56) with 72057594037927936.
  lia.
Qed.

Lemma load64_store64_same m a v : load64 (store64 m a v) a = wrap v.
Proof.
  unfold wrap. rewrite <- bytes_of_word. unfold load64, load8.
  rewrite <- (Z.add_0_r a) at 2.
  rewrite !store64_inside by lia.
  rewrite !(Z.mod_small (byte_of v _)) by apply byte_of_range.
  reflexivity.
Qed.

Lemma load8_memset m dst c n x :
  dst <= x < dst + n -> load8 (memset m dst c n) x = c mod 256.
Proof.
  intros H. unfold load8, memset.
  destruct (Z.leb_spec dst x); destruct (Z.ltb_spec x (dst + n)); simpl; try lia.
  apply Z.mod_mod. lia.
Qed.

Lemma load8_memcpy m dst src n i :
  0 <= i < n -> load8 (memcpy m dst src n) (dst + i) = load8 m (src + i).
Proof.
  intros H. unfold load8, memcpy.
  destruct (Z.leb_spec dst (dst + i)); destruct (Z.ltb_spec (dst + i) (dst + n));
    simpl; try lia.
  do 2 f_equal. lia.
Qed.

End Memory.

(** * Header fields under header writes

    A field read after a write to the same field gives what was written; a
    field read after a write that does not touch its bytes is unchanged.
    The side conditions are linear, so [lia] settles them once the addresses
    are known. *)

Section Headers.

Variable m : memory.

Lemma size_set_size_same b v : blk_size (set_size m b v) b = wrap v.
Proof. apply load64_store64_same. Qed.

Lemma size_set_size_other b b' v :
  b + 8 <= b' \/ b' + 8 <= b -> blk_size (set_size m b' v) b = blk_size m b.
Proof.
  intros H. unfold blk_size, set_size, off_size.
  apply load64_store64_other. lia.
Qed.

Lemma size_set_isFree b b' f :
  b' + 8 < b \/ b <= b' -> blk_size (set_isFree m b' f) b = blk_size m b.
Proof.
  intros H. unfold blk_size, set_isFree, off_size, off_isFree.
  apply load64_store8_other. lia.
Qed.

Lemma size_set_next b b' p :
  b + 8 <= b' + 16 \/ b' + 24 <= b -> blk_size (set_next m b' p) b = blk_size m b.
Proof.
  intros H. unfold blk_size, set_next, off_size, off_next.
  apply load64_store64_other. lia.
Qed.

Lemma isFree_set_isFree_same b f : blk_isFree (set_isFree m b f) b = f.
Proof.
  unfold blk_isFree, set_isFree. rewrite load8_store8_same.
  destruct f; reflexivity.
Qed.

Lemma isFree_set_isFree_other b b' f :
  b <> b' -> blk_isFree (set_isFree m b' f) b = blk_isFree m b.
Proof.
  intros H. unfold blk_isFree, set_isFree, off_isFree.
  rewrite load8_store8_other by lia. reflexivity.
Qed.

Lemma isFree_set_size b b' v :
  b + 8 < b' \/ b' <= b -> blk_isFree (set_size m b' v) b = blk_isFree m b.
Proof.
  intros H. unfold blk_isFree, set_size, off_isFree, off_size.
  rewrite load8_store64_other by lia. reflexivity.
Qed.

Lemma isFree_set_next b b' p :
  b < b' + 8 \/ b' + 16 <= b -> blk_isFree (set_next m b' p) b = blk_isFree m b.
Proof.
  intros H. unfold blk_isFree, set_next, off_isFree, off_next.
  rewrite load8_store64_other by lia. reflexivity.
Qed.

Lemma next_set_next_same b p : blk_next (set_next m b p) b = wrap p.
Proof. apply load64_store64_same. Qed.

Lemma next_set_next_other b b' p :
  b + 8 <= b' \/ b' + 8 <= b -> blk_next (set_next m b' p) b = blk_next m b.
Proof.
  intros H. unfold blk_next, set_next, off_next.
  apply load64_store64_other. lia.
Qed.

Lemma next_set_size b b' v :
  b + 24 <= b' \/ b' <= b + 8 -> blk_next (set_size m b' v) b = blk_next m b.
Proof.
  intros H. unfold blk_next, set_size, off_next, off_size.
  apply load64_store64_other. lia.
Qed.

Lemma next_set_isFree b b' f :
  b' < b + 8 \/ b + 16 <= b' -> blk_next (set_isFree m b' f) b = blk_next m b.
Proof.
  intros H. unfold blk_next, set_isFree, off_next, off_isFree.
  apply load64_store8_other. lia.
Qed.

Lemma blk_size_range b : 0 <= blk_size m b < WORD.
Proof. apply load64_range. Qed.

Lemma blk_next_range b : 0 <= blk_next m b < WORD.
Proof. apply load64_range. Qed.

End Headers.

(** Reading header fields through a stack of header writes: for each read
    of a field under a write, [lia] decides whether the write hit the field. *)
Ltac hdr_step :=
  match goal with
  | |- context [blk_size (set_size ?m ?b' ?v) ?b] =>
      first [ rewrite (size_set_size_same m b' v)
            | replace b with b' by lia; rewrite (size_set_size_same m b' v)
            | rewrite (size_set_size_other m b b' v) by lia ]
  | |- context [blk_size (set_isFree ?m ?b' ?f) ?b] =>
      rewrite (size_set_isFree m b b' f) by lia
  | |- context [blk_size (set_next ?m ?b' ?p) ?b] =>
      rewrite (size_set_next m b b' p) by lia
  | |- context [blk_isFree (set_isFree ?m ?b' ?f) ?b] =>
      first [ rewrite (isFree_set_isFree_same m b' f)
            | replace b with b' by lia; rewrite (isFree_set_isFree_same m b' f)
            | rewrite (isFree_set_isFree_other m b b' f) by lia ]
  | |- context [blk_isFree (set_size ?m ?b' ?v) ?b] =>
      rewrite (isFree_set_size m b b' v) by lia
  | |- context [blk_isFree (set_next ?m ?b' ?p) ?b] =>
      rewrite (isFree_set_next m b b' p) by lia
  | |- context [blk_next (set_next ?m ?b' ?p) ?b] =>
      first [ rewrite (next_set_next_same m b' p)
            | replace b with b' by lia; rewrite (next_set_next_same m b' p)
            | rewrite (next_set_next_other m b b' p) by lia ]
  | |- context [blk_next (set_size ?m ?b' ?v) ?b] =>
      rewrite (next_set_size m b b' v) by lia
  | |- context [blk_next (set_isFree ?m ?b' ?f) ?b] =>
      rewrite (next_set_isFree m b b' f) by lia
  end.

Ltac hdr := repeat hdr_step.

Lemma wrap_wrap n : wrap (wrap n) = wrap n.
Proof. apply wrap_small, wrap_range. Qed.

(** * The allocator *)

(** ** Growth *)

(** The three outcomes of [sbrk]: failure, the break moved, the break left
    where it is. *)
Lemma sbrk_cases st increment :
  sbrk st increment = (SBRK_FAILED, st)
  \/ sbrk st increment = (brk st, st)
  \/ sbrk st increment = (brk st, with_brk st (brk st + increment)).
Proof.
  unfold sbrk.
  destruct (increment =? 0); [auto |].
  destruct ((brk st + increment <? 0) || (WORD <? brk st + increment));
    [auto |].
  destruct ((brk_lo st <=? brk st + increment)
            && (brk st + increment <=? brk_hi st)); [auto |].
  destruct (brk st <? brk st + increment); auto.
Qed.

(** A failed [requestSpace] leaves the process as it was, provided the break
    is neither the null address nor the value [sbrk] uses to report failure. *)
Lemma requestSpace_null st size st' :
  0 < brk st < SBRK_FAILED ->
  requestSpace st size = (nullptr, st') -> st' = st.
Proof.
  intros Hb. unfold requestSpace.
  replace (sbrk st 0) with (brk st, st) by reflexivity.
  destruct (sbrk_cases st (to_intptr (allocSize size))) as [E|[E|E]];
    rewrite E.
  - rewrite Z.eqb_refl. intros H. inversion H. reflexivity.
  - destruct (Z.eqb_spec (brk st) SBRK_FAILED); [lia |].
    intros H. inversion H. unfold nullptr in *. lia.
  - destruct (Z.eqb_spec (brk st) SBRK_FAILED); [lia |].
    intros H. inversion H. unfold nullptr in *. lia.
Qed.

(** What [requestSpace] returns is null or the break. *)
Lemma requestSpace_block st size block st' :
  requestSpace st size = (block, st') -> block = nullptr \/ block = brk st.
Proof.
  unfold requestSpace.
  replace (sbrk st 0) with (brk st, st) by reflexivity.
  destruct (sbrk_cases st (to_intptr (allocSize size))) as [E|[E|E]];
    rewrite E.
  - rewrite Z.eqb_refl. intros H; inversion H; auto.
  - destruct (brk st =? SBRK_FAILED); intros H; inversion H; auto.
  - destruct (brk st =? SBRK_FAILED); intros H; inversion H; auto.
Qed.

Lemma findFreeBlock_loop_nonneg fuel m current size block :
  0 <= current ->
  findFreeBlock_loop fuel m current size = Some block -> 0 <= block.
Proof.
  revert current. induction fuel as [|fuel IH]; intros current Hc; simpl.
  - discriminate.
  - destruct (current =? nullptr).
    + intros H. inversion H. unfold nullptr. lia.
    + destruct (blk_isFree m current && (size <=? blk_size m current)).
      * intros H. inversion H. subst. assumption.
      * apply IH. apply blk_next_range.
Qed.

(** [malloc] returns null only on a path that has not written anything. *)
Lemma malloc_null fuel st size st' :
  0 < brk st < SBRK_FAILED -> 0 <= heap_start st ->
  malloc fuel st size = Some (nullptr, st') -> st' = st.
Proof.
  intros Hb Hh. unfold malloc.
  destruct (size <=? 0); [intros H; inversion H; reflexivity |].
  destruct (heap_start st =? nullptr).
  - destruct (requestSpace st (malloc_span size)) as [block st1] eqn:E.
    destruct (Z.eqb_spec block nullptr) as [->|Hn].
    + intros H. inversion H; subst. eapply requestSpace_null; eauto.
    + intros H. inversion H as [[H1 H2]].
      destruct (requestSpace_block _ _ _ _ E) as [->| ->]; [contradiction |].
      unfold payload_of, sizeof_MemoryBlock, nullptr in H1. lia.
  - destruct (findFreeBlock fuel st (malloc_span size)) as [block|] eqn:F;
      [| discriminate].
    destruct (Z.eqb_spec block nullptr) as [->|Hn].
    + destruct (requestSpace st (malloc_span size)) as [block1 st1] eqn:E.
      destruct (Z.eqb_spec block1 nullptr) as [->|Hn1].
      * intros H. inversion H; subst. eapply requestSpace_null; eauto.
      * destruct (last_block fuel (mem st1) (heap_start st1)); [| discriminate].
        intros H. inversion H as [[H1 H2]].
        destruct (requestSpace_block _ _ _ _ E) as [->| ->]; [contradiction |].
        unfold payload_of, sizeof_MemoryBlock, nullptr in H1. lia.
    + intros H. inversion H as [[H1 H2]].
      apply findFreeBlock_loop_nonneg in F; [| assumption].
      unfold payload_of, sizeof_MemoryBlock, nullptr in H1. lia.
Qed.

(** ** allocate: the size guard *)

Lemma to_size_t_negative n : - WORD < n < 0 -> to_size_t n = n + WORD.
Proof.
  intros H. unfold to_size_t, wrap.
  rewrite <- (Z_mod_plus_full n 1 WORD). rewrite Z.mul_1_l.
  apply Z.mod_small. lia.
Qed.

(** When [malloc] returns null for a size other than 0, [sbrk] has refused
    to move the break. *)
Lemma malloc_null_refused fuel st size st' :
  0 < size ->
  0 < brk st < SBRK_FAILED -> 0 <= heap_start st ->
  malloc fuel st size = Some (nullptr, st') ->
  fst (sbrk st (to_intptr (allocSize (malloc_span size)))) = SBRK_FAILED.
Proof.
  intros Hs Hb Hh.
  assert (R : forall block st1,
             requestSpace st (malloc_span size) = (block, st1) ->
             block = nullptr ->
             fst (sbrk st (to_intptr (allocSize (malloc_span size))))
             = SBRK_FAILED).
  { intros block st1. unfold requestSpace.
    replace (sbrk st 0) with (brk st, st) by reflexivity.
    destruct (sbrk st (to_intptr (allocSize (malloc_span size))))
      as [r s1] eqn:E.
    destruct (Z.eqb_spec r SBRK_FAILED) as [Hr|Hr]; [intros _ _; exact Hr |].
    intros H Hn. inversion H. unfold nullptr in *. lia. }
  unfold malloc.
  destruct (Z.leb_spec size 0); [lia |].
  destruct (heap_start st =? nullptr).
  - destruct (requestSpace st (malloc_span size)) as [block st1] eqn:E.
    destruct (Z.eqb_spec block nullptr) as [Hn|Hn].
    + intros _. eapply R; eauto.
    + intros H'. inversion H' as [[H1 H2]].
      destruct (requestSpace_block _ _ _ _ E) as [->| ->]; [contradiction |].
      unfold payload_of, sizeof_MemoryBlock, nullptr in H1. lia.
  - destruct (findFreeBlock fuel st (malloc_span size)) as [block|] eqn:F;
      [| discriminate].
    destruct (Z.eqb_spec block nullptr) as [->|Hn].
    + destruct (requestSpace st (malloc_span size)) as [block1 st1] eqn:E.
      destruct (Z.eqb_spec block1 nullptr) as [Hn1|Hn1].
      * intros _. eapply R; eauto.
      * destruct (last_block fuel (mem st1) (heap_start st1)); [| discriminate].
        intros H'. inversion H' as [[H1 H2]].
        destruct (requestSpace_block _ _ _ _ E) as [->| ->]; [contradiction |].
        unfold payload_of, sizeof_MemoryBlock, nullptr in H1. lia.
    + intros H'. inversion H' as [[H1 H2]].
      apply findFreeBlock_loop_nonneg in F; [| assumption].
      unfold payload_of, sizeof_MemoryBlock, nullptr in H1. lia.
Qed.

(** The span and the increment that [malloc] computes from an argument
    between -23 and -1. *)
Lemma malloc_span_negative n :
  -23 <= n < 0 ->
  0 <= malloc_span (to_size_t n) < WORD
  /\ 8 <= to_intptr (allocSize (malloc_span (to_size_t n))) <= 24.
Proof.
  intros Hn.
  assert (E : n = - Z.of_nat (S (Z.to_nat (- n - 1)))) by lia.
  assert (B : (Z.to_nat (- n - 1) < 23)%nat) by lia.
  rewrite E. revert B. generalize (Z.to_nat (- n - 1)). intros k.
  do 23 (destruct k as [|k];
         [intros _; vm_compute; repeat split; congruence |]).
  lia.
Qed.

(** A positive increment that [sbrk] grants: [requestSpace] formats a header
    at the break and moves the break by the increment. *)
Lemma requestSpace_granted st size :
  0 < to_intptr (allocSize size) ->
  0 < brk st < SBRK_FAILED ->
  brk_lo st <= brk st + to_intptr (allocSize size) <= brk_hi st ->
  brk_hi st <= WORD ->
  requestSpace st size
  = (brk st,
     mkProc (set_next (set_isFree (set_size (mem st) (brk st) size)
                                  (brk st) false) (brk st) nullptr)
            (if heap_start st =? nullptr then brk st else heap_start st)
            (brk st + to_intptr (allocSize size)) (brk_lo st) (brk_hi st)).
Proof.
  intros Hi Hb Hr Hw. unfold requestSpace, sbrk. rewrite Z.eqb_refl.
  set (inc := to_intptr (allocSize size)) in *.
  destruct (Z.eqb_spec inc 0); [lia |].
  destruct (Z.ltb_spec (brk st + inc) 0); [lia |].
  destruct (Z.ltb_spec WORD (brk st + inc)); [lia |].
  destruct (Z.leb_spec (brk_lo st) (brk st + inc)); [| lia].
  destruct (Z.leb_spec (brk st + inc) (brk_hi st)); [| lia].
  cbn [orb andb].
  destruct (Z.eqb_spec (brk st) SBRK_FAILED); [lia |].
  cbn [heap_start with_brk mem].
  destruct (heap_start st =? nullptr); reflexivity.
Qed.

(** C9, as amended.  [malloc(0)] returns null and leaves the process (heap,
    break and [heap_start]) exactly as it was.  The parameter is a [size_t]:
    zero is its only value [<= 0], and a negative integer argument arrives as
    a positive size, its value modulo [2 ^ 64], which the guard lets pass.
    [malloc] then searches and grows as for any size: if it returns null,
    nothing was written and [sbrk] refused to move the break; and on a
    process that has not allocated yet and whose break can move by 24 bytes
    it returns the address after a new header for every argument from -23
    to -1. *)
Theorem malloc_rejects_zero_only :
  (forall fuel st, malloc fuel st 0 = Some (nullptr, st))
  /\ (forall n, - WORD < n < 0 ->
        0 < to_size_t n < WORD /\ (to_size_t n <=? 0) = false)
  /\ (forall fuel st n st',
        - WORD < n < 0 ->
        0 < brk st < SBRK_FAILED -> 0 <= heap_start st ->
        malloc fuel st (to_size_t n) = Some (nullptr, st') ->
        st' = st
        /\ fst (sbrk st (to_intptr (allocSize (malloc_span (to_size_t n)))))
           = SBRK_FAILED)
  /\ (forall fuel st n,
        -23 <= n < 0 ->
        heap_start st = nullptr ->
        0 < brk st -> brk_lo st <= brk st ->
        brk st + 24 <= brk_hi st -> brk_hi st <= WORD ->
        exists st',
          malloc fuel st (to_size_t n)
          = Some (brk st + sizeof_MemoryBlock, st')
          /\ brk st < brk st'
          /\ blk_size (mem st') (brk st) = malloc_span (to_size_t n)
          /\ blk_isFree (mem st') (brk st) = false).
Proof.
  split; [| split; [| split]].
  - intros fuel st. reflexivity.
  - intros n Hn. rewrite to_size_t_negative by assumption.
    split; [lia |]. apply Z.leb_gt. lia.
  - intros fuel st n st' Hn Hb Hh H. split.
    + eapply malloc_null; eauto.
    + eapply malloc_null_refused; eauto.
      rewrite to_size_t_negative by assumption. lia.
  - intros fuel st n Hn Hh Ha Hlo Hhi Hw.
    destruct (malloc_span_negative n Hn) as [Hsp Hinc].
    assert (Hpos : 0 < to_size_t n)
      by (rewrite to_size_t_negative by (unfold WORD; lia); unfold WORD; lia).
    unfold malloc.
    destruct (Z.leb_spec (to_size_t n) 0); [lia |].
    rewrite Hh, Z.eqb_refl.
    rewrite requestSpace_granted
      by (unfold SBRK_FAILED; unfold WORD in *; lia).
    destruct (Z.eqb_spec (brk st) nullptr); [unfold nullptr in *; lia |].
    eexists. split; [reflexivity |].
    cbn [brk mem with_heap_start].
    split; [lia |]. split.
    + hdr. apply wrap_small. assumption.
    + hdr. reflexivity.
Qed.

Lemma malloc_rejects_zero_only_witness :
  malloc 1 arena0 0 = Some (nullptr, arena0)
  /\ (to_size_t (-1) <=? 0) = false
  /\ exists st',
       malloc 1 arena0 (to_size_t (-9))
       = Some (brk arena0 + sizeof_MemoryBlock, st')
       /\ brk arena0 < brk st'
       /\ blk_size (mem st') (brk arena0) = malloc_span (to_size_t (-9))
       /\ blk_isFree (mem st') (brk arena0) = false.
Proof.
  destruct malloc_rejects_zero_only as (Z0 & P & _ & G).
  split; [apply Z0 |]. split.
  - apply P. unfold WORD. lia.
  - apply (G 1%nat arena0 (-9));
      cbn [heap_start brk brk_lo brk_hi arena0];
      first [ reflexivity | lia | vm_compute; discriminate ].
Defined.

(** C9 as stated fails: [malloc(-1)] on an untouched process does not return
    null; it moves the break by 24 bytes and returns the address after the
    new header. *)
Lemma malloc_negative_size_counterexample :
  -1 <= 0
  /\ option_map fst (malloc 1 arena0 (to_size_t (-1))) = Some 4120
  /\ option_map (fun r => brk (snd r)) (malloc 1 arena0 (to_size_t (-1)))
     = Some 4120
  /\ brk arena0 = 4096.
Proof. repeat split; try reflexivity. lia. Qed.

(** ** reallocate when the fresh allocation fails *)

(** C6.  When [realloc(ptr, size)] needs a fresh block ([ptr] not null,
    [size > 0], [size] above the recorded capacity) and [malloc] returns
    null, [realloc] returns null and the process it leaves is the one it
    started from: the old block is still Used, with the same capacity and the
    same payload bytes. *)
Theorem realloc_failure_keeps_block fuel st ptr size st1 :
  0 < brk st < SBRK_FAILED -> 0 <= heap_start st ->
  ptr <> nullptr -> 0 < size ->
  blk_size (mem st) (header_of ptr) < size ->
  malloc fuel st size = Some (nullptr, st1) ->
  realloc fuel st ptr size = Some (nullptr, st)
  /\ st1 = st
  /\ blk_isFree (mem st1) (header_of ptr) = blk_isFree (mem st) (header_of ptr)
  /\ blk_size (mem st1) (header_of ptr) = blk_size (mem st) (header_of ptr)
  /\ forall i, load8 (mem st1) (ptr + i) = load8 (mem st) (ptr + i).
Proof.
  intros Hb Hh Hp Hs Hc Hm.
  assert (st1 = st) as -> by (eapply malloc_null; eauto).
  repeat split; try reflexivity.
  unfold realloc.
  destruct (Z.eqb_spec ptr nullptr); [contradiction |].
  destruct (Z.eqb_spec size 0); [lia |].
  destruct (Z.leb_spec size (blk_size (mem st) (header_of ptr))); [lia |].
  rewrite Hm. reflexivity.
Qed.

Lemma realloc_failure_keeps_block_witness :
  realloc 2 arena_full 4120 17 = Some (nullptr, arena_full)
  /\ blk_isFree (mem arena_full) (header_of 4120) = false
  /\ blk_size (mem arena_full) (header_of 4120) = 16.
Proof.
  split; [| split; reflexivity].
  refine (proj1 (realloc_failure_keeps_block 2 arena_full 4120 17 arena_full
                   _ _ _ _ _ _)).
  - unfold SBRK_FAILED, WORD. simpl. lia.
  - simpl. lia.
  - unfold nullptr. lia.
  - lia.
  - vm_compute. reflexivity.
  - reflexivity.
Defined.

(** ** grow *)

(** What [allocSize] adds to a size that leaves room for it. *)
Lemma allocSize_value size :
  0 <= size -> size + 16 < WORD -> allocSize size = size + 16.
Proof.
  intros H0 H1. unfold allocSize, sizeof_MemoryBlock, sizeof_size_field.
  rewrite wrap_small by lia. lia.
Qed.

Lemma to_intptr_allocSize size :
  0 <= size -> size + 16 < 2 ^ 63 -> to_intptr (allocSize size) = size + 16.
Proof.
  intros H0 H1. unfold to_intptr.
  rewrite allocSize_value by (unfold WORD; lia).
  rewrite wrap_small by (unfold WORD; lia).
  destruct (Z.ltb_spec (size + 16) (2 ^ 63)); lia.
Qed.

(** Past that, [allocSize] wraps or its value is negative as an [intptr_t]:
    what [sbrk] is given is then less than 16. *)
Lemma to_intptr_allocSize_large size :
  0 <= size < WORD -> 2 ^ 63 <= size + 16 -> to_intptr (allocSize size) < 16.
Proof.
  intros H0 H1. unfold to_intptr, allocSize, sizeof_MemoryBlock,
    sizeof_size_field.
  replace (size + 24 - 8) with (size + 16) by lia.
  rewrite wrap_wrap.
  pose proof (wrap_range (size + 16)) as Hr.
  destruct (Z.ltb_spec (wrap (size + 16)) (2 ^ 63)) as [Hlt|Hge];
    [| unfold WORD in *; lia].
  destruct (Z.lt_ge_cases (size + 16) WORD) as [Hs|Hs].
  - rewrite wrap_small in Hlt by lia. lia.
  - replace (size + 16) with (size + 16 - WORD + 1 * WORD) by lia.
    unfold wrap. rewrite Z_mod_plus_full.
    rewrite Z.mod_small by (unfold WORD in *; lia). unfold WORD in *. lia.
Qed.

(** A call of [sbrk] that does not report failure: it returns the break and
    touches nothing but the break, which it moves by the increment unless
    the increment is negative and the kernel refuses it. *)
Lemma sbrk_success st increment r st' :
  sbrk st increment = (r, st') -> r <> SBRK_FAILED ->
  r = brk st
  /\ mem st' = mem st /\ heap_start st' = heap_start st
  /\ brk_lo st' = brk_lo st /\ brk_hi st' = brk_hi st
  /\ (brk st' = brk st + increment \/ (increment < 0 /\ brk st' = brk st))
  /\ (0 <= increment -> brk st' = brk st + increment).
Proof.
  unfold sbrk.
  destruct (Z.eqb_spec increment 0) as [->|Hz].
  - intros H _. inversion H; subst. rewrite Z.add_0_r. repeat split; auto.
  - destruct ((brk st + increment <? 0) || (WORD <? brk st + increment)).
    { intros H Hr. inversion H; subst. contradiction. }
    destruct ((brk_lo st <=? brk st + increment)
              && (brk st + increment <=? brk_hi st)).
    { intros H _. inversion H; subst. cbn. repeat split; auto. }
    destruct (Z.ltb_spec (brk st) (brk st + increment)) as [Hlt|Hge].
    { intros H Hr. inversion H; subst. contradiction. }
    intros H _. inversion H; subst.
    repeat split; auto; [right; split; lia | lia].
Qed.

(** The block that a successful [requestSpace] formats, and the break it
    leaves. *)
Lemma requestSpace_grows st size block st' :
  0 <= size < WORD ->
  requestSpace st size = (block, st') -> block <> nullptr ->
  block = brk st
  /\ (size + 16 < 2 ^ 63 -> brk st' = brk st + size + 16)
  /\ (2 ^ 63 <= size + 16 -> to_intptr (allocSize size) < 16)
  /\ (brk st' = brk st + to_intptr (allocSize size)
      \/ (to_intptr (allocSize size) < 0 /\ brk st' = brk st))
  /\ blk_size (mem st') block = size
  /\ blk_isFree (mem st') block = false
  /\ blk_next (mem st') block = nullptr
  /\ heap_start st'
     = (if heap_start st =? nullptr then block else heap_start st).
Proof.
  intros Hs H Hn.
  assert (Hi : size + 16 < 2 ^ 63 -> to_intptr (allocSize size) = size + 16)
    by (intros; apply to_intptr_allocSize; lia).
  revert H. unfold requestSpace.
  replace (sbrk st 0) with (brk st, st) by reflexivity.
  set (inc := to_intptr (allocSize size)) in *.
  destruct (sbrk st inc) as [r s1] eqn:E.
  destruct (Z.eqb_spec r SBRK_FAILED) as [Hr|Hr].
  { intros H; inversion H; subst; contradiction. }
  destruct (sbrk_success _ _ _ _ E Hr) as (-> & Em & Eh & _ & _ & Eb & Ep).
  intros H. inversion H; subst block st'. clear H.
  rewrite <- Eh.
  destruct (heap_start s1 =? nullptr);
    cbn [mem brk heap_start with_mem with_heap_start];
    (split; [reflexivity |]);
    (split; [intros Hlt; rewrite Ep; rewrite (Hi Hlt); lia |]);
    (split; [apply to_intptr_allocSize_large; assumption |]);
    (split; [exact Eb |]);
    (split; [hdr; apply wrap_small; assumption |]);
    (split; [hdr; reflexivity |]);
    (split; [hdr; reflexivity | reflexivity]).
Qed.




(** ** split *)

Lemma store8_outside m a v x : x <> a -> store8 m a v x = m x.
Proof.
  intros H. unfold store8. destruct (Z.eqb_spec x a); [contradiction | reflexivity].
Qed.

(** C4, as amended.  For a block whose recorded extent lies inside the
    address space and a size [size] for which [size + sizeof(MemoryBlock)]
    is representable in a [size_t], [splitBlock(block, size)] carves a new
    block exactly when [block->size > size + sizeof(MemoryBlock)].  When it
    does not, memory is unchanged.  When it does, the new header starts right
    after [size] payload bytes of [block]; it is Free, has capacity
    [block->size - size - sizeof(MemoryBlock)] and the former successor of
    [block] as its successor; [block] has capacity [size] and the new block
    as its successor; and no byte outside the written fields changes. *)
Theorem splitBlock_spec m block size :
  0 <= size -> size + sizeof_MemoryBlock < WORD ->
  0 <= block -> block + sizeof_MemoryBlock + blk_size m block <= WORD ->
  (blk_size m block <= size + sizeof_MemoryBlock ->
     splitBlock m block size = m)
  /\ (size + sizeof_MemoryBlock < blk_size m block ->
      let newBlock := payload_of block + size in
      let m' := splitBlock m block size in
      blk_size m' newBlock = blk_size m block - size - sizeof_MemoryBlock
      /\ blk_isFree m' newBlock = true
      /\ blk_next m' newBlock = blk_next m block
      /\ blk_next m' block = newBlock
      /\ blk_size m' block = size
      /\ blk_isFree m' block = blk_isFree m block
      /\ (forall a,
            a < block \/ block + 8 <= a < block + 16
            \/ block + 24 <= a < newBlock
            \/ newBlock + 9 <= a < newBlock + 16 \/ newBlock + 24 <= a ->
            m' a = m a)).
Proof.
  intros Hs Hw Hb Hext.
  pose proof (blk_size_range m block) as Hc.
  pose proof (blk_next_range m block) as Hn.
  unfold splitBlock, payload_of, sizeof_MemoryBlock in *.
  rewrite (wrap_small (size + 24)) by lia.
  split.
  - intros Hle.
    destruct (Z.leb_spec (blk_size m block) (size + 24)); [reflexivity | lia].
  - intros Hlt.
    destruct (Z.leb_spec (blk_size m block) (size + 24)); [lia |].
    rewrite (wrap_small (block + 24 + size)) by lia.
    cbv zeta.
    repeat split.
    + hdr. rewrite wrap_wrap. apply wrap_small. lia.
    + hdr. reflexivity.
    + hdr. apply wrap_small. lia.
    + hdr. apply wrap_small. lia.
    + hdr. apply wrap_small. lia.
    + hdr. reflexivity.
    + intros a Ha. unfold set_next, set_size, set_isFree, off_size, off_isFree,
        off_next.
      rewrite !store64_outside by lia.
      rewrite store8_outside by lia.
      apply store64_outside. lia.
Qed.

(** A block of recorded size 64 at address 4096, followed by nothing. *)
Lemma splitBlock_spec_witness :
  blk_size (splitBlock (set_size (fun _ => 0) 4096 64) 4096 16) (4096 + 24 + 16)
  = 64 - 16 - 24
  /\ blk_isFree (splitBlock (set_size (fun _ => 0) 4096 64) 4096 16)
       (4096 + 24 + 16) = true
  /\ blk_size (splitBlock (set_size (fun _ => 0) 4096 64) 4096 16) 4096 = 16
  /\ splitBlock (set_size (fun _ => 0) 4096 64) 4096 48
     = set_size (fun _ => 0) 4096 64.
Proof.
  assert (E : blk_size (set_size (fun _ => 0) 4096 64) 4096 = 64)
    by (vm_compute; reflexivity).
  assert (H1 : 0 <= 16) by lia.
  assert (H2 : 16 + sizeof_MemoryBlock < WORD)
    by (unfold sizeof_MemoryBlock, WORD; lia).
  assert (H3 : 0 <= 4096) by lia.
  assert (H4 : 4096 + sizeof_MemoryBlock
               + blk_size (set_size (fun _ => 0) 4096 64) 4096 <= WORD)
    by (rewrite E; unfold sizeof_MemoryBlock, WORD; lia).
  assert (H5 : 16 + sizeof_MemoryBlock
               < blk_size (set_size (fun _ => 0) 4096 64) 4096)
    by (rewrite E; unfold sizeof_MemoryBlock; lia).
  destruct (proj2 (splitBlock_spec _ 4096 16 H1 H2 H3 H4) H5)
    as (K1 & K2 & _ & _ & K3 & _).
  rewrite E in K1.
  split; [exact K1 |]. split; [exact K2 |]. split; [exact K3 |].
  apply (proj1 (splitBlock_spec (set_size (fun _ => 0) 4096 64) 4096 48
                  ltac:(lia)
                  ltac:(unfold sizeof_MemoryBlock, WORD; lia)
                  ltac:(lia)
                  ltac:(rewrite E; unfold sizeof_MemoryBlock, WORD; lia))).
  rewrite E. unfold sizeof_MemoryBlock. lia.
Defined.

(** C4 as stated fails for a size whose sum with [sizeof(MemoryBlock)] is not
    representable.  A block of capacity 64 has no slack for a size of
    [2 ^ 64 - 24], yet the sum wraps to 0, which 64 exceeds: [splitBlock]
    writes a header at the address that wraps onto [block] itself, and leaves
    [block] Free, with capacity [2 ^ 64 - 24] and itself as successor. *)
Lemma splitBlock_counterexample :
  blk_size (set_size (fun _ => 0) 4096 64) 4096
  <= (WORD - 24) + sizeof_MemoryBlock
  /\ splitBlock (set_size (fun _ => 0) 4096 64) 4096 (WORD - 24) 4096
     <> set_size (fun _ => 0) 4096 64 4096
  /\ blk_size (splitBlock (set_size (fun _ => 0) 4096 64) 4096 (WORD - 24))
       4096 = WORD - 24
  /\ blk_isFree (splitBlock (set_size (fun _ => 0) 4096 64) 4096 (WORD - 24))
       4096 = true
  /\ blk_next (splitBlock (set_size (fun _ => 0) 4096 64) 4096 (WORD - 24))
       4096 = 4096.
Proof. repeat split; vm_compute; congruence. Qed.

(** ** allocateZeroed *)

(** The overflow guard of [calloc] lets a pair pass only if the product did
    not wrap. *)
Lemma calloc_guard_exact num size :
  0 <= num < WORD -> 0 <= size < WORD ->
  ~ (num <> 0 /\ wrap (num * size) / num <> size) ->
  wrap (num * size) = num * size.
Proof.
  intros Hn Hs Hg.
  destruct (Z.eq_dec num 0) as [->|Hnz]; [reflexivity |].
  destruct (Z.eq_dec (wrap (num * size) / num) size) as [E|E]; [| tauto].
  assert (Hle : wrap (num * size) <= num * size).
  { unfold wrap. apply Z.mod_le; [nia | unfold WORD; lia]. }
  assert (Hge : num * (wrap (num * size) / num) <= wrap (num * size)).
  { apply Z.mul_div_le. lia. }
  rewrite E in Hge. lia.
Qed.

(** C7, as amended.  When the overflow guard fires ([num] not zero and
    [(num * size) / num] different from [size], the product taken modulo
    [2 ^ 64]), [calloc] returns null and the process is untouched.  For every
    other pair the product did not wrap and [calloc] does what
    [malloc(num * size)] does: it runs out of fuel if [malloc] does, returns
    null (with [malloc]'s state) if [malloc] returns null, as it does for a
    product of zero, and otherwise returns [malloc]'s pointer after setting
    each of the [num * size] bytes from that pointer on to zero, all other
    bytes and the globals being as [malloc] left them. *)
Theorem calloc_spec fuel st num size :
  0 <= num < WORD -> 0 <= size < WORD ->
  (num <> 0 /\ wrap (num * size) / num <> size ->
     calloc fuel st num size = Some (nullptr, st))
  /\ (~ (num <> 0 /\ wrap (num * size) / num <> size) ->
      wrap (num * size) = num * size
      /\ (malloc fuel st (num * size) = None ->
          calloc fuel st num size = None)
      /\ (forall ptr st1,
            malloc fuel st (num * size) = Some (ptr, st1) ->
            exists st2,
              calloc fuel st num size = Some (ptr, st2)
              /\ (ptr = nullptr -> st2 = st1)
              /\ (ptr <> nullptr ->
                  (forall i, 0 <= i < num * size ->
                             load8 (mem st2) (ptr + i) = 0)
                  /\ (forall a, a < ptr \/ ptr + num * size <= a ->
                                mem st2 a = mem st1 a)
                  /\ heap_start st2 = heap_start st1
                  /\ brk st2 = brk st1))).
Proof.
  intros Hn Hs. split.
  - intros [Hnz Hdiv]. unfold calloc.
    destruct (Z.eqb_spec num 0); [contradiction |].
    destruct (Z.eqb_spec (wrap (num * size) / num) size); [contradiction |].
    reflexivity.
  - intros Hg.
    pose proof (calloc_guard_exact num size Hn Hs Hg) as Hw.
    assert (Hguard : negb (num =? 0) && negb (wrap (num * size) / num =? size)
                     = false).
    { destruct (Z.eqb_spec num 0); [reflexivity |].
      destruct (Z.eqb_spec (wrap (num * size) / num) size); [reflexivity |].
      exfalso. apply Hg. split; assumption. }
    split; [exact Hw |]. split.
    + intros Hm. unfold calloc. rewrite Hguard, Hw, Hm. reflexivity.
    + intros ptr st1 Hm. unfold calloc. rewrite Hguard, Hw, Hm.
      destruct (Z.eqb_spec ptr nullptr) as [->|Hp].
      * exists st1. split; [reflexivity |]. split; [reflexivity |].
        intros H. contradiction.
      * eexists. split; [reflexivity |]. split; [contradiction |].
        intros _. cbn [mem heap_start brk with_mem]. repeat split.
        -- intros i Hi. rewrite load8_memset by lia. reflexivity.
        -- intros a Ha. unfold memset.
           destruct (Z.leb_spec ptr a); destruct (Z.ltb_spec a (ptr + num * size));
             simpl; try reflexivity; lia.
Qed.

(** [calloc(10, 4)] on an untouched process. *)
Lemma calloc_spec_witness :
  exists st2,
    calloc 1 arena0 10 4 = Some (4120, st2)
    /\ forall i, 0 <= i < 40 -> load8 (mem st2) (4120 + i) = 0.
Proof.
  assert (Hn : 0 <= 10 < WORD) by (unfold WORD; lia).
  assert (Hs : 0 <= 4 < WORD) by (unfold WORD; lia).
  assert (Hg : ~ (10 <> 0 /\ wrap (10 * 4) / 10 <> 4)).
  { intros [_ H]. apply H. reflexivity. }
  destruct (proj2 (calloc_spec 1 arena0 10 4 Hn Hs) Hg) as (_ & _ & H).
  destruct (H 4120 (snd (match malloc 1 arena0 40 with
                         | Some r => r
                         | None => (0, arena0)
                         end)) eq_refl) as (st2 & E & _ & K).
  exists st2. split; [exact E |].
  apply K. unfold nullptr. lia.
Defined.

(** C7 as stated fails: [calloc(0, 4)] returns null although [num] is zero,
    so that the guard did not fire. *)
Lemma calloc_null_without_overflow_counterexample :
  option_map fst (calloc 1 arena0 0 4) = Some nullptr
  /\ ~ (0 <> 0 /\ wrap (0 * 4) / 0 <> 4).
Proof.
  split; [reflexivity |]. intros [H _]. apply H. reflexivity.
Qed.

(** ** The span computed by allocate *)



(** * Symbolic execution of call sequences *)

(** One turn of each loop. *)
Lemma findFreeBlock_loop_S f m c size :
  findFreeBlock_loop (S f) m c size
  = if c =? nullptr then Some nullptr
    else if blk_isFree m c && (size <=? blk_size m c) then Some c
         else findFreeBlock_loop f m (blk_next m c) size.
Proof. reflexivity. Qed.

Lemma last_block_S f m c :
  last_block (S f) m c
  = if blk_next m c =? nullptr then Some c else last_block f m (blk_next m c).
Proof. reflexivity. Qed.

Lemma mergePrev_loop_S f m c block :
  mergePrev_loop (S f) m c block
  = if c =? nullptr then Some m
    else if (blk_next m c =? block) && blk_isFree m c then
           Some (set_next
                   (set_size m c
                      (wrap (blk_size m c
                             + wrap (sizeof_MemoryBlock + blk_size m block))))
                   c
                   (blk_next
                      (set_size m c
                         (wrap (blk_size m c
                                + wrap (sizeof_MemoryBlock + blk_size m block))))
                      block))
         else mergePrev_loop f m (blk_next m c) block.
Proof. reflexivity. Qed.

Lemma mergeBlocks_loop_S f m block :
  mergeBlocks_loop (S f) m block
  = if negb (blk_next m block =? nullptr) && blk_isFree m (blk_next m block)
    then mergeBlocks_loop f (absorb_next m block) block
    else Some m.
Proof. reflexivity. Qed.

Lemma memoryInfo_loop_S f m c s :
  memoryInfo_loop (S f) m c s
  = if c =? nullptr then Some s
    else memoryInfo_loop f m (blk_next m c)
           (if blk_isFree m c
            then mkStats (wrap (totalMemory s + blk_size m c))
                         (wrap (freeMemory s + blk_size m c))
                         (usedMemory s) (wrap (blockCount s + 1))
                         (wrap (freeBlockCount s + 1))
            else mkStats (wrap (totalMemory s + blk_size m c)) (freeMemory s)
                         (wrap (usedMemory s + blk_size m c))
                         (wrap (blockCount s + 1)) (freeBlockCount s)).
Proof. reflexivity. Qed.

(** Deciding a comparison of addresses or sizes from the linear facts at hand. *)
Ltac decide_test :=
  match goal with
  | |- context [?x =? ?y] =>
      first [ rewrite (proj2 (Z.eqb_eq x y)) by lia
            | rewrite (proj2 (Z.eqb_neq x y)) by lia ]
  | |- context [?x <=? ?y] =>
      first [ rewrite (proj2 (Z.leb_le x y)) by lia
            | rewrite (proj2 (Z.leb_gt x y)) by lia ]
  | |- context [?x <? ?y] =>
      first [ rewrite (proj2 (Z.ltb_lt x y)) by lia
            | rewrite (proj2 (Z.ltb_ge x y)) by lia ]
  end.

(** Using the header facts among the hypotheses. *)
Ltac use_facts :=
  match goal with
  | H : blk_size ?m ?b = _ |- context [blk_size ?m ?b] => rewrite H
  | H : blk_isFree ?m ?b = _ |- context [blk_isFree ?m ?b] => rewrite H
  | H : blk_next ?m ?b = _ |- context [blk_next ?m ?b] => rewrite H
  end.

Ltac unwrap :=
  match goal with
  | |- context [wrap ?n] => rewrite (wrap_small n) by (unfold WORD; lia)
  end.

Ltac cancel_offset :=
  match goal with
  | |- context [?x + ?k - ?k] => replace (x + k - k) with x by lia
  end.

Ltac run_step :=
  first
    [ progress unfold nullptr, sizeof_MemoryBlock
    | cancel_offset
    | progress cbn [mem heap_start brk brk_lo brk_hi with_mem with_heap_start
                    with_brk fst snd bind andb orb negb totalMemory freeMemory
                    usedMemory blockCount freeBlockCount Z.add]
    | hdr_step
    | use_facts
    | unwrap
    | decide_test
    | rewrite findFreeBlock_loop_S
    | rewrite last_block_S
    | rewrite mergePrev_loop_S
    | rewrite mergeBlocks_loop_S
    | rewrite memoryInfo_loop_S ].

Ltac run := repeat run_step.

Ltac constants :=
  unfold payload_of, header_of, nullptr, SBRK_FAILED, WORD, sizeof_MemoryBlock
    in *.

(** The first allocation of [sizeof(int)] bytes in an untouched process. *)
Lemma malloc4_first fuel m a lo hi :
  0 < a -> lo <= a -> a + 32 <= hi -> hi <= WORD ->
  malloc fuel (mkProc m nullptr a lo hi) 4
  = Some (a + 24,
          mkProc (set_next (set_isFree (set_size m a 16) a false) a nullptr)
                 a (a + 32) lo hi).
Proof.
  intros Ha Hlo Hhi Hw. unfold malloc, requestSpace, sbrk.
  change (malloc_span 4) with 16. change (to_intptr (allocSize 16)) with 32.
  constants. run. reflexivity.
Qed.

(** ** The span computed by allocate, and the first allocation *)







(** ** allocate, release, allocate *)

(** Releasing the only block of the chain. *)
Lemma free_single fuel m a lo hi :
  0 < a -> a + 32 <= WORD ->
  blk_size m a = 16 -> blk_isFree m a = false -> blk_next m a = nullptr ->
  free (S (S fuel)) (mkProc m a (a + 32) lo hi) (a + 24)
  = Some (mkProc (set_isFree m a true) a (a + 32) lo hi).
Proof.
  intros Ha Hw Hs Hf Hn. unfold free, mergeFreeBlocks, mergeBlocks.
  constants. run. reflexivity.
Qed.

(** Allocating again when the only block is Free and large enough. *)
Lemma malloc4_reuse_single fuel m a lo hi :
  0 < a -> a + 32 <= WORD ->
  blk_size m a = 16 -> blk_isFree m a = true -> blk_next m a = nullptr ->
  malloc (S fuel) (mkProc m a (a + 32) lo hi) 4
  = Some (a + 24, mkProc (set_isFree m a false) a (a + 32) lo hi).
Proof.
  intros Ha Hw Hs Hf Hn. unfold malloc, findFreeBlock, splitBlock.
  change (malloc_span 4) with 16.
  constants. run. reflexivity.
Qed.

(** The search of [findFreeBlock] over a chain that ends: it returns the
    first block, in chain order, that is Free and large enough, and null
    exactly when no block qualifies. *)
Lemma findFreeBlock_loop_first_fit m size :
  forall l h fuel,
    chain m h l -> (length l < fuel)%nat ->
    exists r,
      findFreeBlock_loop fuel m h size = Some r
      /\ ((r = nullptr /\ Forall (fun b => fits m size b = false) l)
          \/ (exists l1 l2,
                 l = l1 ++ r :: l2
                 /\ Forall (fun b => fits m size b = false) l1
                 /\ blk_isFree m r = true /\ size <= blk_size m r)).
Proof.
  induction l as [|b l IH]; intros h fuel Hc Hf.
  - inversion Hc; subst. destruct fuel; [simpl in Hf; lia |].
    exists nullptr. split; [reflexivity |]. left. split; [reflexivity | constructor].
  - inversion Hc; subst. destruct fuel; [simpl in Hf; lia |].
    rewrite findFreeBlock_loop_S.
    destruct (Z.eqb_spec b nullptr); [contradiction |].
    fold (fits m size b).
    destruct (fits m size b) eqn:Hfit.
    + exists b. split; [reflexivity |]. right. exists [], l.
      unfold fits in Hfit. apply andb_prop in Hfit as [Hfree Hsz].
      apply Z.leb_le in Hsz. repeat split; try assumption. constructor.
    + destruct (IH (blk_next m b) fuel) as (r & Hr & Hcase);
        [assumption | simpl in Hf; lia |].
      exists r. split; [exact Hr |].
      destruct Hcase as [[-> Hall] | (l1 & l2 & -> & Hall & Hfree & Hsz)].
      * left. split; [reflexivity |]. constructor; assumption.
      * right. exists (b :: l1), l2. repeat split; try assumption.
        constructor; assumption.
Qed.

(** C8.  In a process that has not allocated yet and whose break can move
    by 32 bytes, [malloc(4)], [free] of the pointer it returned and
    [malloc(4)] again return the same address.  The search behind it returns
    the first block in chain order that is Free with capacity at least the
    span, and null only when no block of the chain qualifies. *)
Theorem malloc_free_malloc_same_address :
  (forall fuel st,
      (2 <= fuel)%nat ->
      heap_start st = nullptr ->
      0 < brk st -> brk_lo st <= brk st -> brk st + 32 <= brk_hi st ->
      brk_hi st <= WORD ->
      exists p st1 st2 st3,
        malloc fuel st 4 = Some (p, st1) /\ p <> nullptr
        /\ free fuel st1 p = Some st2
        /\ malloc fuel st2 4 = Some (p, st3))
  /\ (forall fuel st size l,
         chain (mem st) (heap_start st) l -> (length l < fuel)%nat ->
         exists r,
           findFreeBlock fuel st size = Some r
           /\ ((r = nullptr /\ Forall (fun b => fits (mem st) size b = false) l)
               \/ (exists l1 l2,
                      l = l1 ++ r :: l2
                      /\ Forall (fun b => fits (mem st) size b = false) l1
                      /\ blk_isFree (mem st) r = true
                      /\ size <= blk_size (mem st) r))).
Proof.
  split.
  - intros fuel [m h a lo hi]. cbn [heap_start brk brk_lo brk_hi].
    intros Hfuel -> Ha Hlo Hhi Hw.
    destruct fuel as [|[|fuel]]; try lia.
    eexists _, _, _, _.
    rewrite malloc4_first by assumption.
    split; [reflexivity |]. split; [unfold nullptr; lia |].
    rewrite free_single; try lia; [| hdr; try reflexivity ..].
    split; [reflexivity |].
    rewrite malloc4_reuse_single; try lia; [| hdr; try reflexivity ..].
    reflexivity.
  - intros fuel st size l Hc Hf. unfold findFreeBlock.
    apply findFreeBlock_loop_first_fit; assumption.
Qed.

Lemma malloc_free_malloc_same_address_witness :
  (exists p st1 st2 st3,
      malloc 2 arena0 4 = Some (p, st1) /\ p <> nullptr
      /\ free 2 st1 p = Some st2
      /\ malloc 2 st2 4 = Some (p, st3))
  /\ findFreeBlock 2 arena_full 8 = Some nullptr.
Proof.
  split.
  - apply (proj1 malloc_free_malloc_same_address 2%nat arena0);
      cbn [heap_start brk brk_lo brk_hi arena0]; unfold WORD; lia.
  - destruct (proj2 malloc_free_malloc_same_address 2%nat arena_full 8 [4096])
      as (r & Hr & Hcase).
    + cbn [mem heap_start arena_full]. constructor; [unfold nullptr; lia |].
      replace (blk_next _ 4096) with nullptr by (vm_compute; reflexivity).
      constructor.
    + simpl. lia.
    + destruct Hcase as [[-> _] | (l1 & l2 & E & _ & Hfree & _)];
        [exact Hr |].
      exfalso.
      assert (r = 4096).
      { destruct l1 as [|x [|y l1]]; inversion E; reflexivity. }
      subst r. vm_compute in Hfree. discriminate.
Defined.

(** ** Three blocks released from the middle out *)

(** A second block is appended to a chain of one Used block. *)
Lemma malloc4_second fuel m a lo hi :
  0 < a -> lo <= a -> a + 64 <= hi -> hi <= WORD ->
  blk_size m a = 16 -> blk_isFree m a = false -> blk_next m a = nullptr ->
  malloc (S (S fuel)) (mkProc m a (a + 32) lo hi) 4
  = Some (a + 56,
          mkProc (set_next
                    (set_next (set_isFree (set_size m (a + 32) 16) (a + 32) false)
                              (a + 32) nullptr)
                    a (a + 32))
                 a (a + 64) lo hi).
Proof.
  intros Ha Hlo Hhi Hw Hs Hf Hn.
  unfold malloc, findFreeBlock, requestSpace, sbrk.
  change (malloc_span 4) with 16. change (to_intptr (allocSize 16)) with 32.
  constants. run.
  replace (a + 32 + 32) with (a + 64) by lia.
  replace (a + 32 + 24) with (a + 56) by lia. reflexivity.
Qed.

(** A third block is appended to a chain of two Used blocks. *)
Lemma malloc4_third fuel m a lo hi :
  0 < a -> lo <= a -> a + 96 <= hi -> hi <= WORD ->
  blk_size m a = 16 -> blk_isFree m a = false -> blk_next m a = a + 32 ->
  blk_size m (a + 32) = 16 -> blk_isFree m (a + 32) = false ->
  blk_next m (a + 32) = nullptr ->
  malloc (S (S (S fuel))) (mkProc m a (a + 64) lo hi) 4
  = Some (a + 88,
          mkProc (set_next
                    (set_next (set_isFree (set_size m (a + 64) 16) (a + 64) false)
                              (a + 64) nullptr)
                    (a + 32) (a + 64))
                 a (a + 96) lo hi).
Proof.
  intros Ha Hlo Hhi Hw Hs Hf Hn Hs' Hf' Hn'.
  unfold malloc, findFreeBlock, requestSpace, sbrk.
  change (malloc_span 4) with 16. change (to_intptr (allocSize 16)) with 32.
  constants. run.
  replace (a + 64 + 32) with (a + 96) by lia.
  replace (a + 64 + 24) with (a + 88) by lia. reflexivity.
Qed.

(** Releasing the middle block of three Used blocks merges nothing. *)
Lemma free_middle fuel m a lo hi :
  0 < a -> a + 96 <= WORD ->
  blk_isFree m a = false -> blk_next m a = a + 32 ->
  blk_next m (a + 32) = a + 64 ->
  blk_isFree m (a + 64) = false -> blk_next m (a + 64) = nullptr ->
  free (S (S (S (S fuel)))) (mkProc m a (a + 96) lo hi) (a + 56)
  = Some (mkProc (set_isFree m (a + 32) true) a (a + 96) lo hi).
Proof.
  intros Ha Hw Hfa Hna Hnb Hfc Hnc.
  unfold free, mergeFreeBlocks, mergeBlocks.
  constants. replace (a + 56 - 24) with (a + 32) by lia. run. reflexivity.
Qed.

(** Releasing the last block when the middle one is Free: the backward scan
    finds the middle block and lets it absorb the last. *)
Lemma free_last fuel m a lo hi :
  0 < a -> a + 96 <= WORD ->
  blk_isFree m a = false -> blk_next m a = a + 32 ->
  blk_size m (a + 32) = 16 -> blk_isFree m (a + 32) = true ->
  blk_next m (a + 32) = a + 64 ->
  blk_size m (a + 64) = 16 -> blk_next m (a + 64) = nullptr ->
  free (S (S fuel)) (mkProc m a (a + 96) lo hi) (a + 88)
  = Some (mkProc (set_next (set_size (set_isFree m (a + 64) true) (a + 32) 56)
                           (a + 32) nullptr)
                 a (a + 96) lo hi).
Proof.
  intros Ha Hw Hfa Hna Hsb Hfb Hnb Hsc Hnc.
  unfold free, mergeFreeBlocks, mergeBlocks.
  constants. replace (a + 88 - 24) with (a + 64) by lia. run.
  replace (16 + (24 + 16)) with 56 by lia. reflexivity.
Qed.

(** Releasing the first block when its successor is Free: the forward merge
    absorbs the successor. *)
Lemma free_first fuel m a lo hi :
  0 < a -> a + 96 <= WORD ->
  blk_size m a = 16 -> blk_next m a = a + 32 ->
  blk_size m (a + 32) = 56 -> blk_isFree m (a + 32) = true ->
  blk_next m (a + 32) = nullptr ->
  free (S (S fuel)) (mkProc m a (a + 96) lo hi) (a + 24)
  = Some (mkProc (set_next (set_size (set_isFree m a true) a 96) a nullptr)
                 a (a + 96) lo hi).
Proof.
  intros Ha Hw Hsa Hna Hsb Hfb Hnb.
  unfold free, mergeFreeBlocks, mergeBlocks, absorb_next.
  constants. run.
  replace (16 + (24 + 56)) with 96 by lia. reflexivity.
Qed.

(** The counters over a chain of one Free block. *)
Lemma memoryInfo_single_free fuel m a b lo hi sz :
  0 < a -> 0 <= sz < WORD ->
  blk_size m a = sz -> blk_isFree m a = true -> blk_next m a = nullptr ->
  memoryInfo (S (S fuel)) (mkProc m a b lo hi) = Some (mkStats sz sz 0 1 1).
Proof.
  intros Ha Hsz Hs Hf Hn. unfold memoryInfo. constants. run. reflexivity.
Qed.

(** Settling a header fact about a memory built by header writes. *)
Ltac fact := hdr; repeat unwrap; solve [reflexivity | lia].

(** C1.  In a process that has not allocated yet and whose break can move by
    96 bytes, three allocations of [sizeof(int)] bytes succeed and return
    increasing addresses; after the second, then the third, then the first
    is released, the chain is a single block, and it is Free: the counters of
    [memoryInfo] give one block and one Free block. *)
Theorem three_blocks_middle_out_coalesce fuel st :
  (4 <= fuel)%nat ->
  heap_start st = nullptr ->
  0 < brk st -> brk_lo st <= brk st -> brk st + 96 <= brk_hi st ->
  brk_hi st <= WORD ->
  exists pa pb pc st1 st2 st3 st4 st5 st6 s,
    malloc fuel st 4 = Some (pa, st1)
    /\ malloc fuel st1 4 = Some (pb, st2)
    /\ malloc fuel st2 4 = Some (pc, st3)
    /\ nullptr < pa /\ pa < pb /\ pb < pc
    /\ free fuel st3 pb = Some st4
    /\ free fuel st4 pc = Some st5
    /\ free fuel st5 pa = Some st6
    /\ memoryInfo fuel st6 = Some s
    /\ blockCount s = 1 /\ freeBlockCount s = 1
    /\ heap_start st6 = header_of pa
    /\ blk_isFree (mem st6) (heap_start st6) = true
    /\ blk_next (mem st6) (heap_start st6) = nullptr.
Proof.
  destruct st as [m h a lo hi]. cbn [heap_start brk brk_lo brk_hi].
  intros Hfuel -> Ha Hlo Hhi Hw.
  destruct fuel as [|[|[|[|fuel]]]]; try lia.
  assert (Hw' : a + 96 <= 2 ^ 64) by (unfold WORD in Hw; lia).
  eexists _, _, _, _, _, _, _, _, _, _.
  rewrite malloc4_first by lia.
  split; [reflexivity |].
  rewrite malloc4_second; try lia; [| unfold nullptr; fact ..].
  split; [reflexivity |].
  rewrite malloc4_third; try lia; [| unfold nullptr; fact ..].
  split; [reflexivity |].
  split; [unfold nullptr; lia |]. split; [lia |]. split; [lia |].
  rewrite free_middle; try (unfold WORD; lia); [| unfold nullptr; fact ..].
  split; [reflexivity |].
  rewrite free_last; try (unfold WORD; lia); [| unfold nullptr; fact ..].
  split; [reflexivity |].
  rewrite free_first; try (unfold WORD; lia); [| unfold nullptr; fact ..].
  split; [reflexivity |].
  rewrite (memoryInfo_single_free _ _ _ _ _ _ 96);
    try (unfold WORD; lia); [| unfold nullptr; fact ..].
  split; [reflexivity |].
  cbn [blockCount freeBlockCount heap_start mem].
  split; [reflexivity |]. split; [reflexivity |].
  split; [unfold header_of, sizeof_MemoryBlock; lia |].
  split; unfold nullptr; fact.
Qed.

Lemma three_blocks_middle_out_coalesce_witness :
  exists pa pb pc st1 st2 st3 st4 st5 st6 s,
    malloc 4 arena0 4 = Some (pa, st1)
    /\ malloc 4 st1 4 = Some (pb, st2)
    /\ malloc 4 st2 4 = Some (pc, st3)
    /\ nullptr < pa /\ pa < pb /\ pb < pc
    /\ free 4 st3 pb = Some st4
    /\ free 4 st4 pc = Some st5
    /\ free 4 st5 pa = Some st6
    /\ memoryInfo 4 st6 = Some s
    /\ blockCount s = 1 /\ freeBlockCount s = 1
    /\ heap_start st6 = header_of pa
    /\ blk_isFree (mem st6) (heap_start st6) = true
    /\ blk_next (mem st6) (heap_start st6) = nullptr.
Proof.
  apply (three_blocks_middle_out_coalesce 4%nat arena0);
    cbn [heap_start brk brk_lo brk_hi arena0]; unfold WORD; lia.
Defined.

(** * Where recorded capacities overrun the memory reserved

    [requestSpace] records [block->size = size] for a block for which it
    moved the break by [allocSize(size)], that is [size + 16], 24 bytes of
    which are the header.  [allocSize] takes the size of the [size] field off
    the header allowance; its comment in [memoryBlock.h] speaks of a data word
    already counted in [MemoryBlock], and the struct has none.  So the
    recorded payload is one word longer than the memory that belongs to the
    block, and reaches into the header of the block that follows. *)

(** The recorded payload of a block fresh from [requestSpace] ends eight
    bytes past the break that was moved for it. *)
Lemma requestSpace_overrun st size block st' :
  0 <= size -> size + 16 < 2 ^ 63 ->
  requestSpace st size = (block, st') -> block <> nullptr ->
  payload_of block + blk_size (mem st') block = brk st' + 8.
Proof.
  intros H0 H1 H Hn.
  destruct (requestSpace_grows st size block st')
    as (E1 & E2 & _ & _ & E3 & _); try assumption; [unfold WORD; lia |].
  rewrite E3, E2, E1 by lia.
  unfold payload_of, sizeof_MemoryBlock. lia.
Qed.

(** When the block is large enough [realloc] returns the pointer it was
    given and leaves the process alone. *)
Lemma realloc_fits fuel st ptr size :
  ptr <> nullptr -> size <> 0 ->
  size <= blk_size (mem st) (header_of ptr) ->
  realloc fuel st ptr size = Some (ptr, st).
Proof.
  intros Hp Hs Hc. unfold realloc.
  destruct (Z.eqb_spec ptr nullptr); [contradiction |].
  destruct (Z.eqb_spec size 0); [contradiction |].
  destruct (Z.leb_spec size (blk_size (mem st) (header_of ptr))); [| lia].
  reflexivity.
Qed.

(** C5 at a failing input.  [malloc(8)] returns 4120 with recorded capacity
    16; [realloc(p, 16)] returns the same pointer; the caller stores 7 in
    byte 8; [realloc(p, 17)] returns 4152, where byte 8 is 32: the low byte
    of the [size] field that growth wrote over byte 8 of the old payload
    before the copy. *)
Theorem realloc_loses_last_word :
  grow_after_fit = Some (4120, 4120, 16, 7, 4152, 32).
Proof. vm_compute. reflexivity. Qed.

(** C10 at a failing input.  After [four_frees] the chain is a Free block at
    4096 of recorded capacity 136, followed by the Used block at 4224 of the
    fifth allocation: the recorded payload of the first, 136 bytes from 4120
    on, runs over all 24 bytes of the header of the second.  [malloc(89)]
    then takes the first block, of span 104, and splits it: the remainder
    header goes to 4096 + 24 + 104 = 4224.  In the chain that results the
    head, at 4096, is Used with capacity 104; its successor is the block at
    4224, the header of the fifth allocation, which the caller still holds;
    that block is now Free and is its own successor. *)
Theorem split_remainder_lands_on_live_header :
  option_map fst four_frees = Some 4248
  /\ blocks_from 3 (mem after_four_frees) (heap_start after_four_frees)
     = [(4096, 136, true); (4224, 16, false)]
  /\ option_map (fun r => (fst (fst r), snd (fst r))) reuse_after_four_frees
     = Some (4248, 4120)
  /\ header_of 4248 = 4224
  /\ blocks_from 3 (mem after_reuse) (heap_start after_reuse)
     = [(4096, 104, false); (4224, 8, true); (4224, 8, true)]
  /\ blk_next (mem after_reuse) 4224 = 4224
  /\ ~ no_adjacent_free after_reuse.
Proof.
  split; [vm_compute; reflexivity |].
  split; [vm_compute; reflexivity |].
  split; [vm_compute; reflexivity |].
  split; [reflexivity |].
  split; [vm_compute; reflexivity |].
  assert (Hh : heap_start after_reuse = 4096) by (vm_compute; reflexivity).
  assert (Hn0 : blk_next (mem after_reuse) 4096 = 4224)
    by (vm_compute; reflexivity).
  assert (Hn1 : blk_next (mem after_reuse) 4224 = 4224)
    by (vm_compute; reflexivity).
  assert (Hf1 : blk_isFree (mem after_reuse) 4224 = true)
    by (vm_compute; reflexivity).
  split; [exact Hn1 |].
  intros Hinv.
  assert (Hr : reachable (mem after_reuse) (heap_start after_reuse) 4224).
  { rewrite Hh.
    assert (H0 : reachable (mem after_reuse) 4096 4096)
      by (apply reach_head; unfold nullptr; lia).
    apply reach_next in H0; [| rewrite Hn0; unfold nullptr; lia].
    rewrite Hn0 in H0. exact H0. }
  specialize (Hinv 4224 Hr Hf1).
  rewrite Hn1 in Hinv. rewrite Hf1 in Hinv.
  assert (4224 <> nullptr) as Hne by (unfold nullptr; lia).
  specialize (Hinv Hne). discriminate.
Qed.

(** Before that last call the invariant still held. *)
Lemma no_adjacent_free_after_four_frees : no_adjacent_free after_four_frees.
Proof.
  assert (Hh : heap_start after_four_frees = 4096) by (vm_compute; reflexivity).
  assert (Hn0 : blk_next (mem after_four_frees) 4096 = 4224)
    by (vm_compute; reflexivity).
  assert (Hn1 : blk_next (mem after_four_frees) 4224 = nullptr)
    by (vm_compute; reflexivity).
  assert (Hf1 : blk_isFree (mem after_four_frees) 4224 = false)
    by (vm_compute; reflexivity).
  assert (Hreach : forall b,
             reachable (mem after_four_frees) 4096 b -> b = 4096 \/ b = 4224).
  { intros b Hb. induction Hb as [|b Hb [-> | ->] Hne].
    - left. reflexivity.
    - right. exact Hn0.
    - contradiction. }
  intros b Hb Hfree Hnext. rewrite Hh in Hb.
  destruct (Hreach b Hb) as [-> | ->].
  - rewrite Hn0. exact Hf1.
  - contradiction.
Qed.

(** On that process the first-fit search for a span of 16 never returns:
    whatever the fuel, it is still turning on the block at 4224. *)
Lemma search_never_returns_after_reuse fuel :
  findFreeBlock fuel after_reuse 16 = None.
Proof.
  assert (Hh : heap_start after_reuse = 4096) by (vm_compute; reflexivity).
  assert (Hf0 : blk_isFree (mem after_reuse) 4096 = false)
    by (vm_compute; reflexivity).
  assert (Hn0 : blk_next (mem after_reuse) 4096 = 4224)
    by (vm_compute; reflexivity).
  assert (Hn1 : blk_next (mem after_reuse) 4224 = 4224)
    by (vm_compute; reflexivity).
  assert (Hs1 : blk_size (mem after_reuse) 4224 = 8)
    by (vm_compute; reflexivity).
  assert (Hloop : forall f, findFreeBlock_loop f (mem after_reuse) 4224 16 = None).
  { induction f as [|f IH]; [reflexivity |].
    rewrite findFreeBlock_loop_S, Hs1, Hn1, IH.
    rewrite andb_false_r. reflexivity. }
  unfold findFreeBlock. rewrite Hh.
  destruct fuel as [|f]; [reflexivity |].
  rewrite findFreeBlock_loop_S, Hf0, Hn0, Hloop. reflexivity.
Qed.
